(** * bikewatching: station traffic, time-of-day filter and view update

    A shallow embedding of [map.js]: the time-window filter over the trip
    log, the per-station traffic aggregation, the scale updates of the
    scatter plot and the bike-lane layers added when the map loads.

    JavaScript numbers are modelled at the type their values have in this
    program: trip counts as [nat], minute-of-day values as integers with a
    NaN ([number]), the departure ratio as an exact rational with NaN and
    Infinity ([quotient]).  Double rounding is not modelled. *)

From Stdlib Require Import ZArith QArith Lia.
From stdpp Require Import base option list gmap strings pretty.

(** ** Dates and minute arithmetic *)

(** A [Date] as the program reads it.  [new Date(text)] yields either an
    instant, seen here through its local-time getters, or the Invalid Date,
    whose getters all return NaN. *)
Inductive Date : Type :=
| InvalidDate
| LocalDate (year month day hours minutes seconds : Z).

(** An integer-valued JavaScript number, or NaN. *)
Inductive number : Type :=
| NaN
| Num (n : Z).

Definition getHours (date : Date) : number :=
  match date with
  | InvalidDate => NaN
  | LocalDate _ _ _ h _ _ => Num h
  end.

Definition getMinutes (date : Date) : number :=
  match date with
  | InvalidDate => NaN
  | LocalDate _ _ _ _ m _ => Num m
  end.

(** Arithmetic propagates NaN; a comparison with NaN is false. *)
Definition num_lift2 (op : Z → Z → Z) (a b : number) : number :=
  match a, b with
  | Num x, Num y => Num (op x y)
  | _, _ => NaN
  end.

Definition num_mul : number → number → number := num_lift2 Z.mul.
Definition num_add : number → number → number := num_lift2 Z.add.
Definition num_sub : number → number → number := num_lift2 Z.sub.

Definition Math_abs (a : number) : number :=
  match a with
  | NaN => NaN
  | Num x => Num (Z.abs x)
  end.

Definition num_le (a b : number) : bool :=
  match a, b with
  | Num x, Num y => (x <=? y)%Z
  | _, _ => false
  end.

(** ** Trips *)

(** A row of the trip log after the loader has parsed both timestamps. *)
Record Trip : Type := mkTrip {
  start_station_id : string;
  end_station_id : string;
  started_at : Date;
  ended_at : Date;
}.

(** map.js, lines 34-36. *)
Definition minutesSinceMidnight (date : Date) : number :=
  num_add (num_mul (getHours date) (Num 60)) (getMinutes date).

(** map.js, lines 39-51.  [timeFilter] is the slider value, an integer. *)
Definition filterTripsByTime (trips : list Trip) (timeFilter : Z) : list Trip :=
  if (timeFilter =? -1)%Z then trips
  else
    List.filter
      (λ trip,
         let startedMinutes := minutesSinceMidnight (started_at trip) in
         let endedMinutes := minutesSinceMidnight (ended_at trip) in
         num_le (Math_abs (num_sub startedMinutes (Num timeFilter))) (Num 60)
         || num_le (Math_abs (num_sub endedMinutes (Num timeFilter))) (Num 60))
      trips.

(** The minute of the day of a timestamp as the specification defines it:
    hour * 60 + minute, with seconds and calendar date ignored.  The Invalid
    Date has none. *)
Definition minuteOfDay (date : Date) : option Z :=
  match date with
  | InvalidDate => None
  | LocalDate _ _ _ h m _ => Some (h * 60 + m)%Z
  end.

(** [date] lies in the inclusive 60-minute window around minute [f]. *)
Definition inWindow (date : Date) (f : Z) : Prop :=
  ∃ m : Z, minuteOfDay date = Some m ∧ (Z.abs (m - f) ≤ 60)%Z.

(** ** Stations *)

(** A station record of the station feed: the identifier the program
    groups by and the coordinates it projects. *)
Record Station : Type := mkStation {
  short_name : string;
  lon : Q;
  lat : Q;
}.

(** The record [{ ...station, arrivals, departures, totalTraffic }]: a copy
    of the station's own fields next to the three counts. *)
Record StationTraffic : Type := mkStationTraffic {
  station : Station;
  arrivals : nat;
  departures : nat;
  totalTraffic : nat;
}.

(** ** The d3 functions the program calls *)

Module D3.

(** Modelled from the spec: d3 is loaded from a CDN and is not part of the
    sources.  [d3.rollup(values, reduce, key)] groups the values by key in a
    map, one bucket per key in encounter order, and reduces every bucket;
    the spec calls the result a frequency map (identifier to count). *)
Definition group {A : Type} (values : list A) (key : A → string)
  : gmap string (list A) :=
  foldl
    (λ groups value,
       let k := key value in
       match groups !! k with
       | Some bucket => <[k := bucket ++ [value]]> groups
       | None => <[k := [value]]> groups
       end)
    ∅ values.

Definition rollup {A B : Type} (values : list A) (reduce : list A → B)
    (key : A → string) : gmap string B :=
  reduce <$> group values key.

(** Modelled from the spec: [d3.max(values, accessor)], the largest accessed
    value, [undefined] ([None]) for an empty sequence. *)
Definition max {A : Type} (values : list A) (valueof : A → nat) : option nat :=
  foldl
    (λ best value,
       match best with
       | None => Some (valueof value)
       | Some m => if m <? valueof value then Some (valueof value) else Some m
       end)
    None values.

(** Modelled from the spec: a [d3.scaleSqrt()] object, of which the program
    sets the domain and the range.  The square root it applies to a value
    is not modelled. *)
Record ScaleSqrt : Type := mkScaleSqrt {
  domain : list nat;
  range : list nat;
}.

Definition scaleSqrt : ScaleSqrt := {| domain := [0; 1]; range := [0; 1] |}.

Definition set_domain (d : list nat) (scale : ScaleSqrt) : ScaleSqrt :=
  {| domain := d; range := range scale |}.

Definition set_range (r : list nat) (scale : ScaleSqrt) : ScaleSqrt :=
  {| domain := domain scale; range := r |}.

(** The result of a JavaScript division of two counts. *)
Inductive quotient : Type :=
| QNaN
| QInfinity
| QNum (q : Q).

(** Modelled from the spec: a [d3.scaleQuantize()] object.  With a range of
    n + 1 values it cuts the domain [x0, x1] into n + 1 equal segments at n
    thresholds and maps a number to the range value of its segment; NaN is
    mapped to [undefined] ([None]). *)
Record ScaleQuantize : Type := mkScaleQuantize {
  qdomain : Q * Q;
  qrange : list Q;
}.

Definition scaleQuantize : ScaleQuantize :=
  {| qdomain := (0, 1)%Q; qrange := [0; 1]%Q |}.

Definition set_qdomain (d : Q * Q) (scale : ScaleQuantize) : ScaleQuantize :=
  {| qdomain := d; qrange := qrange scale |}.

Definition set_qrange (r : list Q) (scale : ScaleQuantize) : ScaleQuantize :=
  {| qdomain := qdomain scale; qrange := r |}.

Definition thresholds (scale : ScaleQuantize) : list Q :=
  let n := (Z.of_nat (length (qrange scale)) - 1)%Z in
  let '(x0, x1) := qdomain scale in
  (λ i : Z,
     ((inject_Z (i + 1) * x1 - inject_Z (i - n) * x0) / inject_Z (n + 1))%Q)
    <$> seqZ 0 n.

(** The insertion point to the right of [x] in a sorted array: the number
    of entries that are at most [x]. *)
Definition bisect (a : list Q) (x : Q) : nat :=
  length (List.filter (λ t, Qle_bool t x) a).

Definition quantize (scale : ScaleQuantize) (x : quotient) : option Q :=
  match x with
  | QNaN => None
  | QInfinity => qrange scale !! length (thresholds scale)
  | QNum q => qrange scale !! bisect (thresholds scale) q
  end.

(** Modelled from the spec: the update selection of
    [selection.data(data, key)], the keyed join the spec describes as an
    update keyed by station identifier.  [group] holds the data bound to
    the elements of the selection so far, in the order of the elements; the
    result says for every element which datum it is bound to anew, or
    [None] when the join leaves it as it was.  An element is rebound when
    no earlier element has its key and some datum has its key, and then to
    the first such datum; an element that repeats the key of an earlier one
    is passed over. *)
Definition selection_data {A : Type} (key : A → string) (group data : list A)
  : list (option A) :=
  imap
    (λ i node,
       if decide (key node ∈ key <$> take i group) then None
       else snd <$> list_find (λ d, key d = key node) data)
    group.

End D3.

(** ** Aggregation *)

(** The callback of [stations.map] in [computeStationTraffic], map.js lines
    67-79, over the two frequency maps. *)
Definition withTraffic (arrivals departures : gmap string nat)
    (station : Station) : StationTraffic :=
  let id := short_name station in
  let sArrivals := default 0 (arrivals !! id) in
  let sDepartures := default 0 (departures !! id) in
  let totalTraffic := sArrivals + sDepartures in
  {| station := station;
     arrivals := sArrivals;
     departures := sDepartures;
     totalTraffic := totalTraffic |}.

(** map.js, lines 54-80. *)
Definition computeStationTraffic (stations : list Station) (trips : list Trip)
  : list StationTraffic :=
  let departures := D3.rollup trips length start_station_id in
  let arrivals := D3.rollup trips length end_station_id in
  map (withTraffic arrivals departures) stations.

(** The number of trips of [trips] that start, respectively end, at the
    station called [id]. *)
Definition tripsFrom (id : string) (trips : list Trip) : nat :=
  length (filter (λ t, start_station_id t = id) trips).

Definition tripsTo (id : string) (trips : list Trip) : nat :=
  length (filter (λ t, end_station_id t = id) trips).

(** ** Marker colour and radius *)

(** map.js, line 25. *)
Definition stationFlow : D3.ScaleQuantize :=
  D3.set_qrange [0; 1 # 2; 1]%Q (D3.set_qdomain (0, 1)%Q D3.scaleQuantize).

(** Truthiness of a count: only 0 is falsy. *)
Definition truthy (n : nat) : bool := negb (n =? 0).

(** [a / b] on two counts: 0/0 is NaN, a nonzero count over 0 is Infinity. *)
Definition divide (a b : nat) : D3.quotient :=
  match b with
  | O => match a with O => D3.QNaN | S _ => D3.QInfinity end
  | S _ => D3.QNum (Z.of_nat a # Pos.of_nat b)
  end.

(** The argument handed to [stationFlow], map.js lines 180 and 232. *)
Definition departureRatio (d : StationTraffic) : D3.quotient :=
  if truthy (totalTraffic d) then divide (departures d) (totalTraffic d)
  else D3.QNum (1 # 2).

(** The value of the [--departure-ratio] style of a station's circle,
    map.js lines 178-182 and 230-234. *)
Definition departureRatioStyle (d : StationTraffic) : option Q :=
  D3.quantize stationFlow (departureRatio d).

(** The scatter plot: the radius scale, which an update reconfigures in
    place, and the circles, one per station drawn, each with the datum
    bound to it and its [--departure-ratio] style. *)
Record ScatterPlot : Type := mkScatterPlot {
  radiusScale : D3.ScaleSqrt;
  circles : list (StationTraffic * option Q);
}.

(** map.js, lines 164-182: the first draw appends one circle per record,
    into an overlay that holds no circle yet. *)
Definition drawCircles (data : list StationTraffic)
  : list (StationTraffic * option Q) :=
  map (λ d, (d, departureRatioStyle d)) data.

(** map.js, lines 204-237, over the session's [stations] and [trips] and
    the plot as the last draw or update left it.  The circles are rebound
    through the join keyed by [short_name]; only a rebound circle gets a
    new datum and style. *)
Definition updateScatterPlot (stations : list Station) (trips : list Trip)
    (plot : ScatterPlot) (timeFilter : Z) : ScatterPlot :=
  let filteredTrips := filterTripsByTime trips timeFilter in
  let filteredStations := computeStationTraffic stations filteredTrips in
  let maxTraffic := default 0 (D3.max filteredStations totalTraffic) in
  let scale :=
    D3.set_domain [0; if truthy maxTraffic then maxTraffic else 1]
      (radiusScale plot) in
  let scale :=
    if (timeFilter =? -1)%Z then D3.set_range [0; 25] scale
    else D3.set_range [3; 50] scale in
  let rebound :=
    D3.selection_data (λ d, short_name (station d)) (fst <$> circles plot)
      filteredStations in
  {| radiusScale := scale;
     circles :=
       zip_with
         (λ circle datum,
            match datum with
            | Some d => (d, departureRatioStyle d)
            | None => circle
            end)
         (circles plot) rebound |}.

(** The circles of a plot are those of the stations [S]: circle by circle
    the datum is a record of the station at that place. *)
Definition drawnFor (S : list Station) (plot : ScatterPlot) : Prop :=
  (λ c, station c.1) <$> circles plot = S.

(** The largest [totalTraffic] of a station sequence, 0 when it is empty. *)
Definition maxTotalTraffic (stations : list StationTraffic) : nat :=
  foldr Nat.max 0 (totalTraffic <$> stations).

(** ** Bike-lane layers *)

(** map.js, lines 11-16. *)
Definition BOSTON_BIKE_LANES_URL : string :=
  "https://bostonopendata-boston.opendata.arcgis.com/datasets/boston::existing-bike-network-2022.geojson".

Definition CAMBRIDGE_BIKE_LANES_URL : string :=
  "https://raw.githubusercontent.com/cambridgegis/cambridgegis_data/main/Recreation/Bike_Facilities/RECREATION_BikeFacilities.geojson".

Record Source : Type := mkSource {
  source_type : string;
  source_data : string;
}.

Record Paint : Type := mkPaint {
  line_color : string;
  line_width : Z;
  line_opacity : Q;
}.

Record Layer : Type := mkLayer {
  layer_id : string;
  layer_type : string;
  layer_source : string;
  layer_paint : Paint;
}.

(** The part of the map object the load handler writes: its named sources
    and its layers, in the order they were added. *)
Record MapStyle : Type := mkMapStyle {
  sources : list (string * Source);
  layers : list Layer;
}.

Definition addSource (id : string) (source : Source) (map : MapStyle)
  : MapStyle :=
  {| sources := sources map ++ [(id, source)]; layers := layers map |}.

Definition addLayer (layer : Layer) (map : MapStyle) : MapStyle :=
  {| sources := sources map; layers := layers map ++ [layer] |}.

(** map.js, lines 109-139: step 2 of the load handler. *)
Definition addBikeLanes (map : MapStyle) : MapStyle :=
  let bikeLanePaint :=
    {| line_color := "#32D400"; line_width := 3; line_opacity := 6 # 10 |} in
  let map :=
    addSource "boston_route"
      {| source_type := "geojson"; source_data := BOSTON_BIKE_LANES_URL |} map in
  let map :=
    addLayer
      {| layer_id := "boston-bike-lanes"; layer_type := "line";
         layer_source := "boston_route"; layer_paint := bikeLanePaint |} map in
  if negb (String.eqb CAMBRIDGE_BIKE_LANES_URL
             "https://raw.githubusercontent.com/cambridgegis/cambridgegis_data/main/Recreation/Bike_Facilities/RECREATION_BikeFacilities.geojson")
  then
    let map :=
      addSource "cambridge_route"
        {| source_type := "geojson"; source_data := CAMBRIDGE_BIKE_LANES_URL |}
        map in
    addLayer
      {| layer_id := "cambridge-bike-lanes"; layer_type := "line";
         layer_source := "cambridge_route"; layer_paint := bikeLanePaint |} map
  else map.

(** ** Aggregation over the object store *)

(** Stations and trips are objects that the arrays of the program refer to.
    This module runs the aggregation over a store of such objects, so that
    what it reads, what it allocates and what it leaves alone is explicit. *)
Module Heap.

Definition loc : Type := positive.

Inductive object : Type :=
| StationObj (s : Station)
| TripObj (t : Trip)
| StationTrafficObj (d : StationTraffic).

(** A computation over the store; [None] is a run that reads a reference
    which does not hold an object of the expected shape. *)
Definition M (A : Type) : Type := gmap loc object → option (A * gmap loc object).

Definition ret {A : Type} (a : A) : M A := λ h, Some (a, h).

Definition bind {A B : Type} (m : M A) (k : A → M B) : M B :=
  λ h, match m h with
       | Some (a, h') => k a h'
       | None => None
       end.

Notation "'let!' x := m 'in' k" := (bind m (λ x, k))
  (at level 10, x name, m at level 100, k at level 200).

Definition readStation (l : loc) : M Station :=
  λ h, match h !! l with
       | Some (StationObj s) => Some (s, h)
       | _ => None
       end.

Definition readTrip (l : loc) : M Trip :=
  λ h, match h !! l with
       | Some (TripObj t) => Some (t, h)
       | _ => None
       end.

(** An object literal: a new object at a reference not in use. *)
Definition new (o : object) : M loc :=
  λ h, let l := fresh (dom h) in Some (l, <[l := o]> h).

(** [array.map(callback)], the callback run on every element in order. *)
Fixpoint Array_map {A B : Type} (callback : A → M B) (array : list A)
  : M (list B) :=
  match array with
  | [] => ret []
  | a :: rest =>
      let! b := callback a in
      let! bs := Array_map callback rest in
      ret (b :: bs)
  end.

(** map.js, lines 54-80, on references. *)
Definition computeStationTraffic (stations trips : list loc) : M (list loc) :=
  let! rows := Array_map readTrip trips in
  let departures := D3.rollup rows length start_station_id in
  let arrivals := D3.rollup rows length end_station_id in
  Array_map
    (λ station,
       let! s := readStation station in
       new (StationTrafficObj (withTraffic arrivals departures s)))
    stations.

(** The objects a sequence of references denotes in a store. *)
Definition deref (h : gmap loc object) (refs : list loc) : list (option object) :=
  map (λ l, h !! l) refs.

End Heap.

(** ** The time label *)

(** The day number, counted from 1970-01-01, of day [d] of the month with
    index [m] (0 is January) of year [y] in the Gregorian calendar.  [d]
    may lie outside the month: day 0 is the last day of the month before. *)
Definition daysFromCivil (y m d : Z) : Z :=
  let y' := (if m <? 2 then y - 1 else y)%Z in
  let era := (y' / 400)%Z in
  let yoe := (y' - era * 400)%Z in
  let mp := (if m <? 2 then m + 10 else m - 2)%Z in
  let doy := ((153 * mp + 2) / 5 + d - 1)%Z in
  let doe := (yoe * 365 + yoe / 4 - yoe / 100 + doy)%Z in
  (era * 146097 + doe - 719468)%Z.

(** The year, month index and day of the month of a day number. *)
Definition civilFromDays (z : Z) : Z * Z * Z :=
  let z' := (z + 719468)%Z in
  let era := (z' / 146097)%Z in
  let doe := (z' - era * 146097)%Z in
  let yoe := ((doe - doe / 1460 + doe / 36524 - doe / 146096) / 365)%Z in
  let doy := (doe - (365 * yoe + yoe / 4 - yoe / 100))%Z in
  let mp := ((5 * doy + 2) / 153)%Z in
  let d := (doy - (153 * mp + 2) / 5 + 1)%Z in
  let m := (if mp <? 10 then mp + 2 else mp - 10)%Z in
  let y := (yoe + era * 400 + (if m <? 2 then 1 else 0))%Z in
  (y, m, d).

(** [new Date(year, monthIndex, day, hours, minutes)] in local time: a year
    from 0 to 99 stands for 1900 + year, and a field outside its range
    carries into the next one.  An instant further than 100 000 000 days
    (144 000 000 000 minutes) from 1970-01-01 is the Invalid Date; the
    bound is taken on the local time, the zone offset of a few hours
    aside.  The local clock is taken to run evenly: a wall-clock time that
    a zone skips when its clocks go forward, which JavaScript moves on by
    the length of the gap, is not modelled. *)
Definition newDate (year monthIndex day hours minutes : Z) : Date :=
  let year := (if (0 <=? year) && (year <=? 99) then 1900 + year else year)%Z in
  let time := (hours * 60 + minutes)%Z in
  let days :=
    (daysFromCivil (year + monthIndex / 12) (monthIndex mod 12) day
     + time / 1440)%Z in
  if (Z.abs (days * 1440 + time mod 1440) <=? 144000000000)%Z then
    let '(y, m, d) := civilFromDays days in
    LocalDate y m d ((time mod 1440) / 60) (time mod 60) 0
  else InvalidDate.

(** Modelled from the spec: [date.toLocaleString('en-US', { timeStyle:
    'short' })], the wall-clock short time on the 12-hour clock, as in
    "2:30 PM".  Engines differ in the blank they print before AM and PM; a
    plain space stands for it. *)
Definition toLocaleTimeShort (date : Date) : string :=
  match date with
  | InvalidDate => "Invalid Date"
  | LocalDate _ _ _ h m _ =>
      let h12 := (if h mod 12 =? 0 then 12 else h mod 12)%Z in
      pretty h12 +:+ ":" +:+ (if (m <? 10)%Z then "0" else "") +:+ pretty m
      +:+ " " +:+ (if (h <? 12)%Z then "AM" else "PM")
  end.

(** map.js, lines 29-32. *)
Definition formatTime (minutes : Z) : string :=
  let date := newDate 0 0 0 0 minutes in
  toLocaleTimeShort date.

(** ** The slider *)

(** What the slider handler writes: the current filter value, the text of
    the [selected-time] element, the [display] style of the [any-time]
    label, and the scatter plot. *)
Record Session : Type := mkSession {
  currentTimeFilter : Z;
  selectedTime : string;
  anyTimeLabel : string;
  scatterPlot : ScatterPlot;
}.

(** map.js, lines 239-251, with the number read off the slider. *)
Definition updateTimeDisplay (stations : list Station) (trips : list Trip)
    (sliderValue : Z) (session : Session) : Session :=
  let currentTimeFilter := sliderValue in
  let '(text, display) :=
    if (currentTimeFilter =? -1)%Z then ("", "inline")
    else (formatTime currentTimeFilter, "none") in
  {| currentTimeFilter := currentTimeFilter;
     selectedTime := text;
     anyTimeLabel := display;
     scatterPlot :=
       updateScatterPlot stations trips (scatterPlot session)
         currentTimeFilter |}.

(** map.js, lines 253-254: the handler runs once for the initial render
    and then on every input event, here on the slider values in turn. *)
Definition sliderInputs (stations : list Station) (trips : list Trip)
    (session : Session) (values : list Z) : Session :=
  foldl (λ session value, updateTimeDisplay stations trips value session)
    session values.

(** ** Sample data: the scenarios of the specification *)

Definition clock (h m : Z) : Date := LocalDate 2024 3 1 h m 0.

Definition stationA : Station := mkStation "A" (-7109 # 100) (4236 # 100).
Definition stationB : Station := mkStation "B" (-7106 # 100) (4235 # 100).

(** Scenario A: two trips leave A, one to B and one back to A. *)
Definition tripsA : list Trip :=
  [ mkTrip "A" "B" (clock 9 0) (clock 9 20);
    mkTrip "A" "A" (clock 17 5) (clock 17 30) ].

(** Scenario B: around 10:00, a trip at 08:55 and a trip at 09:00. *)
Definition trip0855 : Trip := mkTrip "A" "B" (clock 8 55) (clock 8 58).
Definition trip0900 : Trip := mkTrip "A" "B" (clock 9 0) (clock 9 0).

(** Scenario C: a trip that starts at a station nobody knows. *)
Definition tripZZZ : Trip := mkTrip "ZZZ" "B" (clock 12 0) (clock 12 10).

(** A quiet hour: 03:00, far from both trips of scenario A. *)
Definition quietHour : Z := 180.

(** The map before the load handler has added anything. *)
Definition blankMap : MapStyle := {| sources := []; layers := [] |}.

(** A store with the two stations and the two trips of scenario A. *)
Definition storeA : gmap Heap.loc Heap.object :=
  <[4%positive := Heap.TripObj (mkTrip "A" "A" (clock 17 5) (clock 17 30))]>
    (<[3%positive := Heap.TripObj (mkTrip "A" "B" (clock 9 0) (clock 9 20))]>
       (<[2%positive := Heap.StationObj stationB]>
          (<[1%positive := Heap.StationObj stationA]> ∅))).

(** The plot of scenario A after the first draw. *)
Definition plotA : ScatterPlot :=
  {| radiusScale := D3.set_range [0; 25] (D3.set_domain [0; 3] D3.scaleSqrt);
     circles := drawCircles (computeStationTraffic [stationA; stationB] tripsA) |}.

(** A session of scenario A before the handler has run. *)
Definition sessionA : Session :=
  {| currentTimeFilter := -1; selectedTime := ""; anyTimeLabel := "";
     scatterPlot := plotA |}.

(** A second station that shares the identifier of station A. *)
Definition stationA' : Station := mkStation "A" (-7110 # 100) (4237 # 100).

(** A row whose two timestamps did not parse. *)
Definition tripUnparsed : Trip := mkTrip "A" "B" InvalidDate InvalidDate.

(** ** Proof automation *)


(** * Properties *)

(** ** The time-window filter *)

Lemma num_le_abs_sub (m : number) (f : Z) :
  num_le (Math_abs (num_sub m (Num f))) (Num 60) = true ↔
  ∃ z : Z, m = Num z ∧ (Z.abs (z - f) ≤ 60)%Z.
Proof.
  destruct m as [|z]; simpl.
  - split; [discriminate | intros (z & Hz & _); discriminate].
  - rewrite Z.leb_le. split.
    + intros H. exists z. auto.
    + intros (z' & Hz & H). injection Hz as ->. exact H.
Qed.

Lemma minutesSinceMidnight_minuteOfDay (date : Date) (z : Z) :
  minutesSinceMidnight date = Num z ↔ minuteOfDay date = Some z.
Proof.
  destruct date as [|y mo d h m s]; simpl.
  - split; discriminate.
  - split; intros H; injection H as <-; reflexivity.
Qed.

Lemma near_inWindow (date : Date) (f : Z) :
  num_le (Math_abs (num_sub (minutesSinceMidnight date) (Num f))) (Num 60) = true
  ↔ inWindow date f.
Proof.
  rewrite num_le_abs_sub. unfold inWindow.
  split; intros (z & Hz & H); exists z; split; auto;
    by apply minutesSinceMidnight_minuteOfDay.
Qed.

Lemma filterTripsByTime_active (T : list Trip) (f : Z) :
  f ≠ (-1)%Z →
  filterTripsByTime T f =
  List.filter
    (λ trip,
       num_le (Math_abs (num_sub (minutesSinceMidnight (started_at trip)) (Num f)))
         (Num 60)
       || num_le (Math_abs (num_sub (minutesSinceMidnight (ended_at trip)) (Num f)))
            (Num 60))
    T.
Proof.
  intros Hf. unfold filterTripsByTime.
  destruct (Z.eqb_spec f (-1)) as [->|_]; [contradiction | reflexivity].
Qed.

Lemma filterTripsByTime_elem (T : list Trip) (f : Z) (trip : Trip) :
  f ≠ (-1)%Z →
  trip ∈ filterTripsByTime T f ↔
  trip ∈ T ∧ (inWindow (started_at trip) f ∨ inWindow (ended_at trip) f).
Proof.
  intros Hf. rewrite filterTripsByTime_active by assumption.
  rewrite !list_elem_of_In, filter_In, orb_true_iff, !near_inWindow.
  reflexivity.
Qed.

Lemma List_filter_sublist {A : Type} (p : A → bool) (l : list A) :
  sublist (List.filter p l) l.
Proof.
  induction l as [|x l IH]; simpl.
  - constructor.
  - destruct (p x).
    + by apply sublist_skip.
    + by apply sublist_cons.
Qed.

(** C2: with a filter value other than -1, a trip is kept exactly when its
    start or its end lies within 60 minutes of the filter value, the minute
    of day being hour * 60 + minute; a difference of exactly 60 is kept;
    and the window does not wrap around midnight: at filter value 0 a trip
    that starts and ends at 23:30 is dropped. *)
Theorem filterTripsByTime_window (T : list Trip) (f : Z) :
  f ≠ (-1)%Z →
  (∀ trip : Trip,
     trip ∈ filterTripsByTime T f ↔
     trip ∈ T ∧ (inWindow (started_at trip) f ∨ inWindow (ended_at trip) f))
  ∧ (∀ (trip : Trip) (m : Z),
       trip ∈ T →
       minuteOfDay (started_at trip) = Some m
       ∨ minuteOfDay (ended_at trip) = Some m →
       Z.abs (m - f) = 60%Z →
       trip ∈ filterTripsByTime T f)
  ∧ (∀ (from to : string) (y mo d s y' mo' d' s' : Z),
       mkTrip from to (LocalDate y mo d 23 30 s) (LocalDate y' mo' d' 23 30 s')
       ∉ filterTripsByTime T 0).
Proof.
  intros Hf. split; [|split].
  - intros trip. by apply filterTripsByTime_elem.
  - intros trip m Hin Hm Habs.
    apply filterTripsByTime_elem; [assumption|].
    split; [assumption|].
    destruct Hm as [Hm|Hm]; [left | right]; exists m; split; auto; lia.
  - intros from to y mo d s y' mo' d' s' Hin.
    apply filterTripsByTime_elem in Hin; [|discriminate].
    destruct Hin as [_ [(m & Hm & H)|(m & Hm & H)]];
      simpl in Hm; injection Hm as <-; lia.
Qed.

(** Scenario B: around 10:00 the trip at 09:00 stays and the trip at 08:55
    goes. *)
Lemma filterTripsByTime_window_witness :
  600%Z ≠ (-1)%Z
  ∧ trip0900 ∈ filterTripsByTime [trip0855; trip0900] 600
  ∧ trip0855 ∉ filterTripsByTime [trip0855; trip0900] 600.
Proof.
  assert (Hf : 600%Z ≠ (-1)%Z) by discriminate.
  destruct (filterTripsByTime_window [trip0855; trip0900] 600 Hf)
    as (Hiff & Hedge & _).
  split; [exact Hf|]. split.
  - apply (Hedge trip0900 540%Z).
    + apply list_elem_of_In. simpl. auto.
    + left. reflexivity.
    + reflexivity.
  - intros Hin. apply Hiff in Hin.
    destruct Hin as [_ [(m & Hm & H)|(m & Hm & H)]];
      simpl in Hm; injection Hm as <-; lia.
Defined.

(** C3: the sentinel -1 switches the filter off; the trips come back as
    they were given, all of them and in their order. *)
Theorem filterTripsByTime_sentinel (T : list Trip) :
  filterTripsByTime T (-1) = T.
Proof. reflexivity. Qed.

(** C9: whatever the filter value, the result is a subsequence of the
    trips: kept trips stay in their relative order and none is repeated
    or invented. *)
Theorem filterTripsByTime_sublist (T : list Trip) (f : Z) :
  sublist (filterTripsByTime T f) T.
Proof.
  unfold filterTripsByTime. destruct (f =? -1)%Z.
  - reflexivity.
  - apply List_filter_sublist.
Qed.

(** ** The frequency maps *)

Lemma group_snoc {A : Type} (values : list A) (key : A → string) (v : A) :
  D3.group (values ++ [v]) key =
  match D3.group values key !! key v with
  | Some bucket => <[key v := bucket ++ [v]]> (D3.group values key)
  | None => <[key v := [v]]> (D3.group values key)
  end.
Proof. unfold D3.group. rewrite foldl_app. reflexivity. Qed.

(** A key's bucket holds the values of that key, in their order; a key that
    no value has is not in the map. *)
Lemma group_lookup {A : Type} (values : list A) (key : A → string) (k : string) :
  D3.group values key !! k =
  match filter (λ v, key v = k) values with
  | [] => None
  | bucket => Some bucket
  end.
Proof.
  induction values as [|v values IH] using rev_ind.
  - reflexivity.
  - rewrite group_snoc, filter_app, filter_cons, filter_nil.
    destruct (decide (key v = k)) as [->|Hne].
    + rewrite IH.
      destruct (filter _ values) as [|b bucket]; rewrite lookup_insert_eq;
        reflexivity.
    + rewrite app_nil_r, <- IH.
      destruct (D3.group values key !! key v); by rewrite lookup_insert_ne.
Qed.

Lemma rollup_length_lookup {A : Type} (values : list A) (key : A → string)
    (k : string) :
  default 0 (D3.rollup values length key !! k) =
  length (filter (λ v, key v = k) values).
Proof.
  unfold D3.rollup. rewrite lookup_fmap, group_lookup.
  destruct (filter _ values); reflexivity.
Qed.

(** A key is in the frequency map exactly when some value has it. *)
Lemma rollup_lookup_None {A B : Type} (values : list A) (reduce : list A → B)
    (key : A → string) (k : string) :
  D3.rollup values reduce key !! k = None ↔ ∀ v, v ∈ values → key v ≠ k.
Proof.
  unfold D3.rollup. rewrite lookup_fmap, group_lookup.
  split.
  - intros H v Hv Hk.
    assert (Hin : v ∈ filter (λ v, key v = k) values)
      by (apply list_elem_of_filter; auto).
    destruct (filter _ values); [by apply not_elem_of_nil in Hin | discriminate].
  - intros H. destruct (filter _ values) as [|v bucket] eqn:E; [reflexivity|].
    assert (Hin : v ∈ filter (λ v, key v = k) values)
      by (rewrite E; apply list_elem_of_here).
    apply list_elem_of_filter in Hin as [Hk Hv]. by destruct (H v Hv).
Qed.

(** ** Aggregation *)

Lemma withTraffic_rollup (T : list Trip) (s : Station) :
  withTraffic (D3.rollup T length end_station_id)
    (D3.rollup T length start_station_id) s =
  {| station := s;
     arrivals := tripsTo (short_name s) T;
     departures := tripsFrom (short_name s) T;
     totalTraffic := tripsTo (short_name s) T + tripsFrom (short_name s) T |}.
Proof.
  unfold withTraffic, tripsTo, tripsFrom.
  by rewrite !rollup_length_lookup.
Qed.

Lemma computeStationTraffic_map (S : list Station) (T : list Trip) :
  computeStationTraffic S T =
  map (λ s, {| station := s;
               arrivals := tripsTo (short_name s) T;
               departures := tripsFrom (short_name s) T;
               totalTraffic :=
                 tripsTo (short_name s) T + tripsFrom (short_name s) T |}) S.
Proof.
  unfold computeStationTraffic. apply map_ext. intros s.
  apply withTraffic_rollup.
Qed.

Lemma tripsFrom_app (id : string) (T1 T2 : list Trip) :
  tripsFrom id (T1 ++ T2) = tripsFrom id T1 + tripsFrom id T2.
Proof. unfold tripsFrom. by rewrite filter_app, length_app. Qed.

Lemma tripsTo_app (id : string) (T1 T2 : list Trip) :
  tripsTo id (T1 ++ T2) = tripsTo id T1 + tripsTo id T2.
Proof. unfold tripsTo. by rewrite filter_app, length_app. Qed.

Lemma tripsFrom_cons (id : string) (t : Trip) (T : list Trip) :
  tripsFrom id (t :: T) =
  (if decide (start_station_id t = id) then 1 else 0) + tripsFrom id T.
Proof. unfold tripsFrom. rewrite filter_cons. by case_decide. Qed.

Lemma tripsTo_cons (id : string) (t : Trip) (T : list Trip) :
  tripsTo id (t :: T) =
  (if decide (end_station_id t = id) then 1 else 0) + tripsTo id T.
Proof. unfold tripsTo. rewrite filter_cons. by case_decide. Qed.

Create Rewrite HintDb counts.
Hint Rewrite tripsFrom_app tripsTo_app tripsFrom_cons tripsTo_cons : counts.

Lemma tripsFrom_unmatched (id : string) (T : list Trip) :
  (∀ t, t ∈ T → start_station_id t ≠ id) → tripsFrom id T = 0.
Proof.
  induction T as [|t T IH]; intros H; [reflexivity|].
  rewrite tripsFrom_cons, IH.
  - case_decide as E; [|reflexivity]. destruct (H t); [constructor | exact E].
  - intros t' Ht'. apply H. by constructor.
Qed.

Lemma tripsTo_unmatched (id : string) (T : list Trip) :
  (∀ t, t ∈ T → end_station_id t ≠ id) → tripsTo id T = 0.
Proof.
  induction T as [|t T IH]; intros H; [reflexivity|].
  rewrite tripsTo_cons, IH.
  - case_decide as E; [|reflexivity]. destruct (H t); [constructor | exact E].
  - intros t' Ht'. apply H. by constructor.
Qed.

(** C1: the aggregation returns one record per station, in the order of the
    stations and carrying each station's own fields; its departures are the
    trips that start at the station's identifier, its arrivals the trips
    that end there, its total their sum; a station that no trip names gets
    three zeros. *)
Theorem computeStationTraffic_counts (S : list Station) (T : list Trip) :
  length (computeStationTraffic S T) = length S
  ∧ Forall2
      (λ (s : Station) (d : StationTraffic),
         station d = s
         ∧ departures d = tripsFrom (short_name s) T
         ∧ arrivals d = tripsTo (short_name s) T
         ∧ totalTraffic d = arrivals d + departures d
         ∧ ((∀ t, t ∈ T →
                  start_station_id t ≠ short_name s
                  ∧ end_station_id t ≠ short_name s) →
            arrivals d = 0 ∧ departures d = 0 ∧ totalTraffic d = 0))
      S (computeStationTraffic S T).
Proof.
  rewrite computeStationTraffic_map. split; [apply length_map|].
  induction S as [|s S IH]; simpl; constructor; [|exact IH].
  simpl. split_and!; try reflexivity.
  intros Hnone.
  rewrite tripsTo_unmatched, tripsFrom_unmatched;
    [auto | intros t Ht; by apply Hnone ..].
Qed.

(** A station that the only trip does not touch: B, with a trip from A to
    A, gets three zeros. *)
Lemma computeStationTraffic_counts_witness :
  Forall (λ d, arrivals d = 0 ∧ departures d = 0 ∧ totalTraffic d = 0)
    (computeStationTraffic [stationB]
       [mkTrip "A" "A" (clock 17 5) (clock 17 30)]).
Proof.
  destruct (computeStationTraffic_counts [stationB]
              [mkTrip "A" "A" (clock 17 5) (clock 17 30)]) as [_ H].
  destruct (computeStationTraffic _ _) as [|d ds]; [constructor|].
  apply Forall2_cons_1 in H as [(_ & _ & _ & _ & Hzero) Hds].
  apply Forall2_nil_inv_l in Hds as ->.
  constructor; [|constructor]. apply Hzero.
  intros t Ht. apply list_elem_of_singleton in Ht as ->.
  split; discriminate.
Defined.

(** Scenario A of the specification. *)
Example computeStationTraffic_scenarioA :
  computeStationTraffic [stationA; stationB] tripsA =
  [ mkStationTraffic stationA 1 2 3; mkStationTraffic stationB 1 0 1 ].
Proof. vm_compute. reflexivity. Qed.






(** C10: the counts of a concatenated trip log are the sums of the counts
    of its two parts, station by station. *)
Theorem computeStationTraffic_app (S : list Station) (T1 T2 : list Trip) :
  Forall3
    (λ d d1 d2 : StationTraffic,
       station d = station d1 ∧ station d = station d2
       ∧ arrivals d = arrivals d1 + arrivals d2
       ∧ departures d = departures d1 + departures d2
       ∧ totalTraffic d = totalTraffic d1 + totalTraffic d2)
    (computeStationTraffic S (T1 ++ T2))
    (computeStationTraffic S T1)
    (computeStationTraffic S T2).
Proof.
  rewrite !computeStationTraffic_map.
  induction S as [|s S IH]; simpl; constructor; [|exact IH].
  simpl. autorewrite with counts. split_and!; (reflexivity || lia).
Qed.

(** ** Marker colour *)



Lemma departureRatio_cases (d : StationTraffic) :
  departureRatio d =
  match totalTraffic d with
  | O => D3.QNum (1 # 2)
  | S _ => D3.QNum (Z.of_nat (departures d) # Pos.of_nat (totalTraffic d))
  end.
Proof.
  unfold departureRatio, truthy, divide.
  destruct (totalTraffic d); reflexivity.
Qed.




(** ** Radius scale *)

Lemma max_from (A : Type) (valueof : A → nat) (values : list A) (m : nat) :
  foldl
    (λ best value,
       match best with
       | None => Some (valueof value)
       | Some m => if m <? valueof value then Some (valueof value) else Some m
       end)
    (Some m) values =
  Some (Nat.max m (foldr Nat.max 0 (valueof <$> values))).
Proof.
  revert m. induction values as [|v values IH]; intros m.
  - simpl. f_equal. lia.
  - rewrite fmap_cons. simpl.
    destruct (Nat.ltb_spec m (valueof v)); rewrite IH; f_equal; lia.
Qed.

(** [d3.max(...) ?? 0] is the largest value, 0 for an empty sequence. *)
Lemma max_default (A : Type) (valueof : A → nat) (values : list A) :
  default 0 (D3.max values valueof) = foldr Nat.max 0 (valueof <$> values).
Proof.
  destruct values as [|v values]; [reflexivity|].
  unfold D3.max. simpl. rewrite max_from. reflexivity.
Qed.

(** C4, as the code has it: an update sets the domain of the radius scale
    to [0, max totalTraffic] of the stations it has just aggregated when
    that maximum is positive and to [0, 1] when it is 0 (no station has
    traffic, or there is no station); the range is [0, 25] for the
    sentinel -1 and [3, 50] for any other filter value. *)
Theorem updateScatterPlot_radiusScale (S : list Station) (T : list Trip)
    (plot : ScatterPlot) (f : Z) :
  D3.domain (radiusScale (updateScatterPlot S T plot f)) =
    [0; match maxTotalTraffic (computeStationTraffic S (filterTripsByTime T f)) with
        | O => 1
        | Datatypes.S m => Datatypes.S m
        end]
  ∧ D3.range (radiusScale (updateScatterPlot S T plot f)) =
    (if (f =? -1)%Z then [0; 25] else [3; 50]).
Proof.
  unfold updateScatterPlot, maxTotalTraffic. cbn [radiusScale].
  rewrite max_default. split.
  - destruct (f =? -1)%Z; simpl;
      destruct (foldr Nat.max 0 _); reflexivity.
  - destruct (f =? -1)%Z; reflexivity.
Qed.

(** C4 as stated fails: at the quiet hour no trip of scenario A is in the
    window, every station has totalTraffic 0, and the domain is [0, 1], not
    [0, 0]. *)
Lemma updateScatterPlot_domain_counterexample :
  maxTotalTraffic
    (computeStationTraffic [stationA; stationB]
       (filterTripsByTime tripsA quietHour)) = 0
  ∧ D3.domain
      (radiusScale
         (updateScatterPlot [stationA; stationB] tripsA plotA quietHour))
    = [0; 1]
  ∧ D3.domain
      (radiusScale
         (updateScatterPlot [stationA; stationB] tripsA plotA quietHour))
    ≠ [0; maxTotalTraffic
            (computeStationTraffic [stationA; stationB]
               (filterTripsByTime tripsA quietHour))].
Proof. vm_compute. repeat split; discriminate. Qed.

(** ** Bike-lane layers *)

(** C5, evaluated: the guard of the Cambridge branch compares the
    constant with its own value, so the branch never runs.  Whatever the
    map holds, the handler adds the Boston source and the Boston layer
    and nothing else; on a blank map no Cambridge source or layer exists
    afterwards. *)
Theorem addBikeLanes_boston_only (map : MapStyle) :
  addBikeLanes map =
    {| sources :=
         sources map
         ++ [("boston_route",
              {| source_type := "geojson";
                 source_data := BOSTON_BIKE_LANES_URL |})];
       layers :=
         layers map
         ++ [{| layer_id := "boston-bike-lanes"; layer_type := "line";
                layer_source := "boston_route";
                layer_paint :=
                  {| line_color := "#32D400"; line_width := 3;
                     line_opacity := 6 # 10 |} |}] |}
  ∧ ("cambridge_route" ∉ fst <$> sources (addBikeLanes blankMap))
  ∧ ("cambridge-bike-lanes" ∉ layer_id <$> layers (addBikeLanes blankMap)).
Proof.
  split; [reflexivity|]. split; vm_compute; intros H.
  - apply list_elem_of_In in H. simpl in H. destruct H as [H|[]]. discriminate.
  - apply list_elem_of_In in H. simpl in H. destruct H as [H|[]]. discriminate.
Qed.

(** ** Aggregation over the object store *)

Section store.

Import Heap.

Implicit Types (h : gmap loc object) (l : loc).

Lemma readTrip_lookup h l (t : Trip) :
  h !! l = Some (TripObj t) → readTrip l h = Some (t, h).
Proof. intros H. unfold readTrip. by rewrite H. Qed.

Lemma readStation_lookup h l (s : Station) :
  h !! l = Some (StationObj s) → readStation l h = Some (s, h).
Proof. intros H. unfold readStation. by rewrite H. Qed.

Lemma Array_map_readTrip h (trips : list loc) (T : list Trip) :
  deref h trips = (λ t, Some (TripObj t)) <$> T →
  Array_map readTrip trips h = Some (T, h).
Proof.
  revert T. induction trips as [|l trips IH]; intros [|t T] Hd;
    try discriminate; [reflexivity|].
  unfold deref in Hd. rewrite !fmap_cons in Hd. simpl in Hd.
  injection Hd as Hl Hrest.
  cbn [Array_map]. unfold bind. rewrite (readTrip_lookup h l t Hl), (IH T Hrest).
  reflexivity.
Qed.

Lemma new_fresh (o : object) h l h' :
  new o h = Some (l, h') → h !! l = None ∧ h' = <[l := o]> h.
Proof.
  unfold new. intros [= <- <-]. split; [|reflexivity].
  apply not_elem_of_dom, is_fresh.
Qed.

(** The allocating pass over the stations: it reads the station objects,
    only adds objects to the store, and returns the new references, each
    holding the record computed for its station. *)
Lemma Array_map_new (f : Station → StationTraffic) (stations : list loc)
    (S : list Station) h h0 :
  h ⊆ h0 →
  deref h stations = (λ s, Some (StationObj s)) <$> S →
  ∃ (result : list loc) h',
    Array_map
      (λ station, let! s := readStation station in new (StationTrafficObj (f s)))
      stations h0 = Some (result, h')
    ∧ h0 ⊆ h'
    ∧ (∀ l, l ∈ result → h0 !! l = None)
    ∧ NoDup result
    ∧ deref h' result = (λ s, Some (StationTrafficObj (f s))) <$> S.
Proof.
  revert S h0. induction stations as [|l stations IH]; intros [|s S] h0 Hsub Hd;
    try discriminate.
  - exists [], h0. repeat split; auto.
    + intros l Hl. by apply not_elem_of_nil in Hl.
    + constructor.
  - unfold deref in Hd. rewrite !fmap_cons in Hd. simpl in Hd.
    injection Hd as Hl Hrest.
    pose proof (lookup_weaken _ _ _ _ Hl Hsub) as Hl0.
    set (l' := fresh (dom h0)).
    set (h1 := <[l' := StationTrafficObj (f s)]> h0).
    assert (Hfresh : h0 !! l' = None) by apply not_elem_of_dom, is_fresh.
    assert (Hsub1 : h0 ⊆ h1) by (by apply insert_subseteq).
    destruct (IH S h1) as (result & h' & Hrun & Hsub' & Hnew & Hnd & Hres);
      [by etrans | exact Hrest |].
    exists (l' :: result), h'. split; [|split; [|split; [|split]]].
    + set (callback := λ station : loc, bind _ _) in *.
      cbn [Array_map]. unfold bind. unfold callback at 1. unfold bind.
      rewrite (readStation_lookup h0 l s Hl0). unfold new.
      fold l'. fold h1. rewrite Hrun. reflexivity.
    + by etrans.
    + intros l0 Hl0'. apply elem_of_cons in Hl0' as [->|Hin]; [exact Hfresh|].
      specialize (Hnew l0 Hin).
      destruct (h0 !! l0) as [o|] eqn:E; [|reflexivity].
      by rewrite (lookup_weaken _ _ _ _ E Hsub1) in Hnew.
    + constructor; [|exact Hnd]. intros Hin.
      specialize (Hnew l' Hin). unfold h1 in Hnew.
      by rewrite lookup_insert_eq in Hnew.
    + unfold deref in *. rewrite !fmap_cons. simpl. f_equal; [|exact Hres].
      apply (lookup_weaken h1); [apply lookup_insert_eq | exact Hsub'].
Qed.

End store.

(** C8: run over a store in which the given references hold the stations
    and the trips, the aggregation returns, and afterwards every object
    that was in the store holds what it held before, the station and trip
    objects among them; the references it returns are pairwise distinct
    and were not in use before, and they hold the records of the
    aggregation, one per station. *)
Theorem computeStationTraffic_frame (h : gmap Heap.loc Heap.object)
    (stations trips : list Heap.loc) (S : list Station) (T : list Trip) :
  Heap.deref h stations = (λ s, Some (Heap.StationObj s)) <$> S →
  Heap.deref h trips = (λ t, Some (Heap.TripObj t)) <$> T →
  ∃ (result : list Heap.loc) (h' : gmap Heap.loc Heap.object),
    Heap.computeStationTraffic stations trips h = Some (result, h')
    ∧ (∀ l o, h !! l = Some o → h' !! l = Some o)
    ∧ Heap.deref h' stations = Heap.deref h stations
    ∧ Heap.deref h' trips = Heap.deref h trips
    ∧ (∀ l, l ∈ result → h !! l = None)
    ∧ NoDup result
    ∧ Heap.deref h' result =
      (λ d, Some (Heap.StationTrafficObj d)) <$> computeStationTraffic S T.
Proof.
  intros HS HT.
  destruct (Array_map_new
              (withTraffic (D3.rollup T length end_station_id)
                 (D3.rollup T length start_station_id))
              stations S h h (reflexivity h) HS)
    as (result & h' & Hrun & Hsub & Hnew & Hnd & Hres).
  assert (Hkeep : ∀ refs os, Heap.deref h refs = Some <$> os →
                             Heap.deref h' refs = Heap.deref h refs).
  { intros refs. unfold Heap.deref. induction refs as [|l refs IH];
      intros [|o os] Hd; try discriminate; [reflexivity|].
    rewrite !fmap_cons in Hd. simpl in Hd. injection Hd as Hl Hrest.
    simpl. rewrite (IH os Hrest), Hl.
    by rewrite (lookup_weaken _ _ _ _ Hl Hsub). }
  exists result, h'. split; [|split; [|split; [|split; [|split; [|split]]]]].
  - unfold Heap.computeStationTraffic, Heap.bind.
    rewrite (Array_map_readTrip h trips T HT). exact Hrun.
  - intros l o Hl. exact (lookup_weaken _ _ _ _ Hl Hsub).
  - apply (Hkeep stations (Heap.StationObj <$> S)).
    rewrite HS, <- list_fmap_compose. reflexivity.
  - apply (Hkeep trips (Heap.TripObj <$> T)).
    rewrite HT, <- list_fmap_compose. reflexivity.
  - exact Hnew.
  - exact Hnd.
  - rewrite Hres. unfold computeStationTraffic.
    rewrite <- list_fmap_compose. reflexivity.
Qed.

(** The store of scenario A: references 1 and 2 hold the stations, 3 and 4
    the trips. *)
Lemma computeStationTraffic_frame_witness :
  ∃ (result : list Heap.loc) (h' : gmap Heap.loc Heap.object),
    Heap.computeStationTraffic [1%positive; 2%positive]
      [3%positive; 4%positive] storeA = Some (result, h')
    ∧ (∀ l o, storeA !! l = Some o → h' !! l = Some o)
    ∧ Heap.deref h' [1%positive; 2%positive]
      = Heap.deref storeA [1%positive; 2%positive]
    ∧ Heap.deref h' [3%positive; 4%positive]
      = Heap.deref storeA [3%positive; 4%positive]
    ∧ (∀ l, l ∈ result → storeA !! l = None)
    ∧ NoDup result
    ∧ Heap.deref h' result =
      (λ d, Some (Heap.StationTrafficObj d))
        <$> computeStationTraffic [stationA; stationB] tripsA.
Proof.
  apply (computeStationTraffic_frame storeA [1%positive; 2%positive]
           [3%positive; 4%positive] [stationA; stationB] tripsA);
    vm_compute; reflexivity.
Defined.

(** The same run, evaluated: the records land at the next two free
    references. *)
Example computeStationTraffic_store_scenarioA :
  fst <$> Heap.computeStationTraffic [1%positive; 2%positive]
            [3%positive; 4%positive] storeA
  = Some [5%positive; 6%positive].
Proof. vm_compute. reflexivity. Qed.

(** * Further properties *)

Example formatTime_samples :
  formatTime 870 = "2:30 PM" ∧ formatTime 0 = "12:00 AM"
  ∧ formatTime 720 = "12:00 PM" ∧ formatTime 1439 = "11:59 PM"
  ∧ formatTime 1440 = "12:00 AM" ∧ formatTime 65 = "1:05 AM".
Proof. vm_compute. repeat split. Qed.

Example newDate_samples :
  newDate 0 0 0 0 870 = LocalDate 1899 11 31 14 30 0
  ∧ newDate 0 0 0 0 1440 = LocalDate 1900 0 1 0 0 0
  ∧ newDate 0 0 0 0 (-1) = LocalDate 1899 11 30 23 59 0
  ∧ newDate 2024 1 29 23 120 = LocalDate 2024 2 1 1 0 0
  ∧ newDate 2023 1 29 0 0 = LocalDate 2023 2 1 0 0 0
  ∧ newDate 0 0 0 0 144036817920 = LocalDate 275760 8 13 0 0 0
  ∧ newDate 0 0 0 0 144036817921 = InvalidDate.
Proof. vm_compute. repeat split. Qed.

(** ** More on the time-window filter *)

Lemma List_filter_idem {A : Type} (p : A → bool) (l : list A) :
  List.filter p (List.filter p l) = List.filter p l.
Proof.
  induction l as [|x l IH]; [reflexivity|]. simpl.
  destruct (p x) eqn:E; simpl; rewrite ?E, IH; reflexivity.
Qed.

Lemma List_filter_comm {A : Type} (p q : A → bool) (l : list A) :
  List.filter p (List.filter q l) = List.filter q (List.filter p l).
Proof.
  induction l as [|x l IH]; [reflexivity|]. simpl.
  destruct (p x) eqn:P, (q x) eqn:Q; simpl; rewrite ?P, ?Q, IH; reflexivity.
Qed.

(** X1: filtering twice at the same value changes nothing more, and two
    filters applied one after the other give the same trips in either
    order. *)
Theorem filterTripsByTime_twice (T : list Trip) (f g : Z) :
  filterTripsByTime (filterTripsByTime T f) f = filterTripsByTime T f
  ∧ filterTripsByTime (filterTripsByTime T f) g =
    filterTripsByTime (filterTripsByTime T g) f.
Proof.
  unfold filterTripsByTime. split.
  - destruct (f =? -1)%Z; [reflexivity | apply List_filter_idem].
  - destruct (f =? -1)%Z, (g =? -1)%Z; try reflexivity.
    apply List_filter_comm.
Qed.

Lemma filterTripsByTime_app (T1 T2 : list Trip) (f : Z) :
  filterTripsByTime (T1 ++ T2) f =
  filterTripsByTime T1 f ++ filterTripsByTime T2 f.
Proof.
  unfold filterTripsByTime. destruct (f =? -1)%Z; [reflexivity|].
  apply List.filter_app.
Qed.

(** X2: the filter works trip by trip, so it distributes over a
    concatenated trip log, and the counts of the filtered log are the sums
    of the counts of its filtered parts. *)
Theorem filter_then_aggregate_app (S : list Station) (T1 T2 : list Trip)
    (f : Z) :
  filterTripsByTime (T1 ++ T2) f =
    filterTripsByTime T1 f ++ filterTripsByTime T2 f
  ∧ Forall3
      (λ d d1 d2 : StationTraffic,
         arrivals d = arrivals d1 + arrivals d2
         ∧ departures d = departures d1 + departures d2
         ∧ totalTraffic d = totalTraffic d1 + totalTraffic d2)
      (computeStationTraffic S (filterTripsByTime (T1 ++ T2) f))
      (computeStationTraffic S (filterTripsByTime T1 f))
      (computeStationTraffic S (filterTripsByTime T2 f)).
Proof.
  split; [apply filterTripsByTime_app|].
  rewrite filterTripsByTime_app, !computeStationTraffic_map.
  induction S as [|s S IH]; simpl; constructor; [|exact IH].
  simpl. autorewrite with counts. split_and!; lia.
Qed.

Lemma inWindow_invalid (f : Z) : ¬ inWindow InvalidDate f.
Proof. intros (m & Hm & _). discriminate. Qed.

(** X3: a timestamp that did not parse is the Invalid Date, whose minutes
    are NaN and lie in no window.  Under an active filter a trip with one
    such timestamp is judged by the other one alone, and a trip with two
    is never kept; the sentinel -1 keeps both kinds. *)
Theorem filterTripsByTime_invalid_date (T : list Trip) (f : Z) (t : Trip) :
  f ≠ (-1)%Z →
  (started_at t = InvalidDate →
   (t ∈ filterTripsByTime T f ↔ t ∈ T ∧ inWindow (ended_at t) f))
  ∧ (ended_at t = InvalidDate →
     (t ∈ filterTripsByTime T f ↔ t ∈ T ∧ inWindow (started_at t) f))
  ∧ (started_at t = InvalidDate → ended_at t = InvalidDate →
     t ∉ filterTripsByTime T f)
  ∧ (t ∈ filterTripsByTime T (-1) ↔ t ∈ T).
Proof.
  intros Hf. pose proof (inWindow_invalid f) as Hno. split_and!.
  - intros Hs. rewrite filterTripsByTime_elem, Hs by assumption. tauto.
  - intros He. rewrite filterTripsByTime_elem, He by assumption. tauto.
  - intros Hs He. rewrite filterTripsByTime_elem, Hs, He by assumption. tauto.
  - reflexivity.
Qed.

(** A timestamp that failed to parse, at 10:00 and without a filter. *)
Lemma filterTripsByTime_invalid_date_witness :
  600%Z ≠ (-1)%Z
  ∧ (tripUnparsed ∉ filterTripsByTime [tripUnparsed; trip0900] 600)
  ∧ (tripUnparsed ∈ filterTripsByTime [tripUnparsed; trip0900] (-1)).
Proof.
  assert (Hf : 600%Z ≠ (-1)%Z) by discriminate.
  destruct (filterTripsByTime_invalid_date [tripUnparsed; trip0900] 600
              tripUnparsed Hf) as (_ & _ & Hboth & Hall).
  split; [exact Hf|]. split.
  - apply Hboth; reflexivity.
  - apply Hall. apply list_elem_of_here.
Defined.

(** X4: no parsed trip is out of the slider's reach: a trip whose start
    (or end) is a valid clock time, hours 0 to 23 and minutes 0 to 59, is
    kept at the slider value of that very minute, which lies between 0 and
    1439, and at every active value within 60 of it. *)
Theorem filterTripsByTime_reachable (T : list Trip) (t : Trip)
    (y mo d h mi s : Z) :
  t ∈ T →
  started_at t = LocalDate y mo d h mi s ∨ ended_at t = LocalDate y mo d h mi s →
  (0 ≤ h < 24)%Z → (0 ≤ mi < 60)%Z →
  (0 ≤ h * 60 + mi < 1440)%Z
  ∧ t ∈ filterTripsByTime T (h * 60 + mi)
  ∧ ∀ f : Z, f ≠ (-1)%Z → (Z.abs (h * 60 + mi - f) ≤ 60)%Z →
             t ∈ filterTripsByTime T f.
Proof.
  intros Hin Hclock Hh Hmi.
  assert (Hwin : ∀ f, (Z.abs (h * 60 + mi - f) ≤ 60)%Z →
                      inWindow (started_at t) f ∨ inWindow (ended_at t) f).
  { intros f Hf. destruct Hclock as [E|E]; [left | right];
      rewrite E; by exists (h * 60 + mi)%Z. }
  split; [lia|]. split.
  - apply filterTripsByTime_elem; [lia|]. split; [exact Hin|].
    apply Hwin. lia.
  - intros f Hf Habs. apply filterTripsByTime_elem; auto.
Qed.

(** The 09:00 trip of scenario B, found at slider value 540. *)
Lemma filterTripsByTime_reachable_witness :
  trip0900 ∈ filterTripsByTime [trip0855; trip0900] (9 * 60 + 0).
Proof.
  refine (proj1 (proj2 (filterTripsByTime_reachable [trip0855; trip0900]
                          trip0900 2024 3 1 9 0 0 _ _ _ _))).
  - apply list_elem_of_further, list_elem_of_here.
  - left. reflexivity.
  - lia.
  - lia.
Defined.

(** ** More on the aggregation *)

Lemma tripsFrom_Permutation (id : string) (T T' : list Trip) :
  T ≡ₚ T' → tripsFrom id T = tripsFrom id T'.
Proof. intros H. unfold tripsFrom. by rewrite H. Qed.

Lemma tripsTo_Permutation (id : string) (T T' : list Trip) :
  T ≡ₚ T' → tripsTo id T = tripsTo id T'.
Proof. intros H. unfold tripsTo. by rewrite H. Qed.

(** X5: the order of the trip log does not matter: a rearranged log gives
    the same records. *)
Theorem computeStationTraffic_Permutation (S : list Station)
    (T T' : list Trip) :
  T ≡ₚ T' → computeStationTraffic S T = computeStationTraffic S T'.
Proof.
  intros H. rewrite !computeStationTraffic_map. apply map_ext. intros s.
  by rewrite (tripsFrom_Permutation _ T T' H), (tripsTo_Permutation _ T T' H).
Qed.

(** Scenario A with its two trips swapped. *)
Lemma computeStationTraffic_Permutation_witness :
  computeStationTraffic [stationA; stationB]
    [mkTrip "A" "A" (clock 17 5) (clock 17 30);
     mkTrip "A" "B" (clock 9 0) (clock 9 20)]
  = computeStationTraffic [stationA; stationB] tripsA.
Proof.
  apply computeStationTraffic_Permutation. unfold tripsA. apply perm_swap.
Defined.

Lemma sum_list_fmap_plus {A : Type} (f g : A → nat) (l : list A) :
  sum_list ((λ a, f a + g a) <$> l) = sum_list (f <$> l) + sum_list (g <$> l).
Proof.
  induction l as [|a l IH]; [reflexivity|].
  rewrite !fmap_cons. simpl. rewrite IH. lia.
Qed.

(** Among stations with pairwise different identifiers, an identifier
    names one station or none. *)
Lemma sum_list_indicator (S : list Station) (x : string) :
  NoDup (short_name <$> S) →
  sum_list ((λ s, if decide (x = short_name s) then 1 else 0) <$> S) =
  if decide (x ∈ short_name <$> S) then 1 else 0.
Proof.
  induction S as [|s S IH]; intros Hnd; [reflexivity|].
  rewrite !fmap_cons in *. apply NoDup_cons in Hnd as [Hnotin Hnd].
  simpl. rewrite (IH Hnd).
  destruct (decide (x = short_name s)) as [E|E];
    destruct (decide (x ∈ short_name <$> S)) as [Hin|Hin];
    destruct (decide (x ∈ short_name s :: (short_name <$> S))) as [Hc|Hc];
    try reflexivity; exfalso; rewrite elem_of_cons in Hc; subst; tauto.
Qed.

Lemma sum_keyed_counts (S : list Station) (key : Trip → string)
    (T : list Trip) :
  NoDup (short_name <$> S) →
  sum_list ((λ s, length (filter (λ t, key t = short_name s) T)) <$> S) =
  length (filter (λ t, key t ∈ short_name <$> S) T).
Proof.
  intros Hnd. induction T as [|t T IH].
  - simpl. induction S as [|s S IHS]; [reflexivity|].
    rewrite fmap_cons. simpl. apply IHS.
    rewrite fmap_cons in Hnd. by apply NoDup_cons in Hnd as [_ ?].
  - rewrite (filter_cons (λ t, key t ∈ _)).
    transitivity
      (sum_list ((λ s, if decide (key t = short_name s) then 1 else 0) <$> S)
       + sum_list
           ((λ s, length (filter (λ t, key t = short_name s) T)) <$> S)).
    + rewrite <- sum_list_fmap_plus. f_equal. apply list_fmap_ext.
      intros i s Hi. rewrite filter_cons. by case_decide.
    + rewrite IH, sum_list_indicator by assumption.
      by case_decide.
Qed.

(** X6: when the station identifiers are pairwise different, every trip
    is counted at most once as a departure and at most once as an arrival:
    the departures of all stations add up to the number of trips that start
    at a station of the sequence, the arrivals to the number that end at
    one, and the totals to the sum of the two. *)
Theorem computeStationTraffic_conservation (S : list Station)
    (T : list Trip) :
  NoDup (short_name <$> S) →
  sum_list (departures <$> computeStationTraffic S T) =
    length (filter (λ t, start_station_id t ∈ short_name <$> S) T)
  ∧ sum_list (arrivals <$> computeStationTraffic S T) =
    length (filter (λ t, end_station_id t ∈ short_name <$> S) T)
  ∧ sum_list (totalTraffic <$> computeStationTraffic S T) =
    length (filter (λ t, start_station_id t ∈ short_name <$> S) T)
    + length (filter (λ t, end_station_id t ∈ short_name <$> S) T).
Proof.
  intros Hnd. rewrite computeStationTraffic_map, <- !list_fmap_compose.
  pose proof (sum_keyed_counts S start_station_id T Hnd) as Hs.
  pose proof (sum_keyed_counts S end_station_id T Hnd) as He.
  unfold compose. simpl. unfold tripsFrom, tripsTo. split_and!.
  - exact Hs.
  - exact He.
  - rewrite sum_list_fmap_plus. lia.
Qed.

(** Scenario A with the trip from the unknown station ZZZ added: two of
    the three trips start at a known station, all three end at one. *)
Lemma computeStationTraffic_conservation_witness :
  NoDup (short_name <$> [stationA; stationB])
  ∧ sum_list
      (departures
         <$> computeStationTraffic [stationA; stationB] (tripsA ++ [tripZZZ]))
    = 2
  ∧ sum_list
      (arrivals
         <$> computeStationTraffic [stationA; stationB] (tripsA ++ [tripZZZ]))
    = 3.
Proof.
  assert (Hnd : NoDup (short_name <$> [stationA; stationB])).
  { apply (bool_decide_unpack _). vm_compute. exact I. }
  destruct (computeStationTraffic_conservation [stationA; stationB]
              (tripsA ++ [tripZZZ]) Hnd) as (Hdep & Harr & _).
  split; [exact Hnd|]. split; [exact Hdep | exact Harr].
Defined.

Lemma filterTripsByTime_sublist_of (T : list Trip) (f : Z) :
  sublist (filterTripsByTime T f) T.
Proof.
  unfold filterTripsByTime. destruct (f =? -1)%Z;
    [reflexivity | apply List_filter_sublist].
Qed.

Lemma filter_sublist_length {A : Type} (P : A → Prop)
    `{!∀ x, Decision (P x)} (l1 l2 : list A) :
  sublist l1 l2 → length (filter P l1) ≤ length (filter P l2).
Proof.
  induction 1 as [|x l1 l2 _ IH|x l1 l2 _ IH]; [reflexivity| |];
    rewrite ?filter_cons; repeat case_decide; simpl; lia.
Qed.

(** X7: a time filter never raises a count: station by station the
    arrivals, departures and total of the filtered trips are at most those
    of all trips, which are at most the number of trips (the total at most
    twice that, a round trip counting as a departure and as an arrival). *)
Theorem filter_then_aggregate_le (S : list Station) (T : list Trip) (f : Z) :
  Forall2
    (λ d d' : StationTraffic,
       station d = station d'
       ∧ arrivals d ≤ arrivals d' ≤ length T
       ∧ departures d ≤ departures d' ≤ length T
       ∧ totalTraffic d ≤ totalTraffic d' ≤ 2 * length T)
    (computeStationTraffic S (filterTripsByTime T f))
    (computeStationTraffic S T).
Proof.
  rewrite !computeStationTraffic_map.
  induction S as [|s S IH]; simpl; constructor; [|exact IH].
  simpl. unfold tripsFrom, tripsTo.
  pose proof (filterTripsByTime_sublist_of T f) as Hsub.
  pose proof (filter_sublist_length
                (λ t, start_station_id t = short_name s) _ _ Hsub).
  pose proof (filter_sublist_length
                (λ t, end_station_id t = short_name s) _ _ Hsub).
  pose proof (length_filter (λ t, start_station_id t = short_name s) T).
  pose proof (length_filter (λ t, end_station_id t = short_name s) T).
  split_and!; (reflexivity || lia).
Qed.

(** ** More on the scatter plot *)

Lemma maxTotalTraffic_ge (l : list StationTraffic) (d : StationTraffic) :
  d ∈ l → totalTraffic d ≤ maxTotalTraffic l.
Proof.
  unfold maxTotalTraffic. induction 1 as [d l|d d' l _ IH];
    rewrite fmap_cons; simpl; lia.
Qed.

Lemma maxTotalTraffic_attained (l : list StationTraffic) :
  maxTotalTraffic l = 0 ∨ ∃ d, d ∈ l ∧ totalTraffic d = maxTotalTraffic l.
Proof.
  unfold maxTotalTraffic. induction l as [|d l IH]; [by left|].
  rewrite fmap_cons. simpl.
  destruct (Nat.max_spec (totalTraffic d) (foldr Nat.max 0 (totalTraffic <$> l)))
    as [[Hlt ->]|[Hle ->]].
  - destruct IH as [H0|(d' & Hin & Hd')]; [lia|].
    right. exists d'. split; [by apply list_elem_of_further | exact Hd'].
  - right. exists d. split; [apply list_elem_of_here | reflexivity].
Qed.

(** With pairwise different keys the join is by position: every element
    is rebound, to the datum at its own place. *)
Lemma selection_data_NoDup {A : Type} (key : A → string) (group data : list A) :
  key <$> group = key <$> data →
  NoDup (key <$> data) →
  D3.selection_data key group data = Some <$> data.
Proof.
  intros Hkeys Hnd. apply list_eq. intros i. unfold D3.selection_data.
  rewrite list_lookup_imap, list_lookup_fmap.
  pose proof (f_equal (λ l, l !! i) Hkeys) as Hi. simpl in Hi.
  rewrite !list_lookup_fmap in Hi.
  destruct (group !! i) as [node|] eqn:Hg, (data !! i) as [d|] eqn:Hd;
    try discriminate; [|reflexivity].
  injection Hi as Hi. simpl.
  rewrite decide_False.
  - assert (Hfind : list_find (λ d', key d' = key node) data = Some (i, d)).
    { apply list_find_Some. split_and!; [exact Hd | by symmetry |].
      intros j y Hy Hj Hkey.
      assert (j = i); [|lia].
      apply (proj1 (NoDup_alt _) Hnd j i (key node));
        rewrite list_lookup_fmap; [by rewrite Hy, <- Hkey | by rewrite Hd, Hi]. }
    by rewrite Hfind.
  - intros Hin. apply list_elem_of_fmap in Hin as (node' & Hkey & Hin).
    apply elem_of_take in Hin as (j & Hj & Hlt).
    assert (j = i); [|lia]. rewrite <- Hkeys in Hnd.
    apply (proj1 (NoDup_alt _) Hnd j i (key node));
      rewrite list_lookup_fmap; [by rewrite Hj, Hkey | by rewrite Hg].
Qed.

Lemma station_computeStationTraffic (S : list Station) (T : list Trip) :
  station <$> computeStationTraffic S T = S.
Proof.
  rewrite computeStationTraffic_map, <- list_fmap_compose. apply list_fmap_id.
Qed.

Lemma drawCircles_drawnFor (S : list Station) (T : list Trip)
    (scale : D3.ScaleSqrt) :
  drawnFor S
    {| radiusScale := scale;
       circles := drawCircles (computeStationTraffic S T) |}.
Proof.
  unfold drawnFor, drawCircles. cbn [circles].
  change (map ?f ?l) with (f <$> l).
  rewrite <- list_fmap_compose. apply station_computeStationTraffic.
Qed.

Lemma zip_with_rebound {A B : Type} (f : B → A) (cs : list A) (ds : list B) :
  length cs = length ds →
  zip_with (λ c o, match o with Some d => f d | None => c end) cs (Some <$> ds)
  = f <$> ds.
Proof.
  revert cs. induction ds as [|d ds IH]; intros [|c cs] Hlen;
    try discriminate; [reflexivity|].
  rewrite !fmap_cons. simpl. f_equal. apply IH. by injection Hlen.
Qed.

(** When the station identifiers are pairwise different and the circles
    are those of the stations, an update rebinds every circle to the new
    record of its own station. *)
Lemma updateScatterPlot_circles (S : list Station) (T : list Trip)
    (plot : ScatterPlot) (f : Z) :
  NoDup (short_name <$> S) → drawnFor S plot →
  circles (updateScatterPlot S T plot f) =
  drawCircles (computeStationTraffic S (filterTripsByTime T f)).
Proof.
  intros Hnd Hdrawn. unfold updateScatterPlot. cbn [circles].
  set (ds := computeStationTraffic S (filterTripsByTime T f)).
  assert (Hkeys : (λ d, short_name (station d)) <$> (fst <$> circles plot)
                  = (λ d, short_name (station d)) <$> ds).
  { transitivity (short_name <$> S).
    - unfold drawnFor in Hdrawn. rewrite <- Hdrawn, <- !list_fmap_compose.
      reflexivity.
    - unfold ds.
      rewrite <- (station_computeStationTraffic S (filterTripsByTime T f)) at 1.
      rewrite <- list_fmap_compose. reflexivity. }
  rewrite selection_data_NoDup.
  - apply zip_with_rebound.
    apply (f_equal length) in Hkeys. by rewrite !length_fmap in Hkeys.
  - exact Hkeys.
  - unfold ds.
    change (NoDup ((short_name ∘ station)
                     <$> computeStationTraffic S (filterTripsByTime T f))).
    by rewrite list_fmap_compose, station_computeStationTraffic.
Qed.

Lemma updateScatterPlot_radiusScale_eq (S : list Station) (T : list Trip)
    (plot : ScatterPlot) (f : Z) :
  radiusScale (updateScatterPlot S T plot f) =
  {| D3.domain :=
       [0; if truthy (maxTotalTraffic
                        (computeStationTraffic S (filterTripsByTime T f)))
           then maxTotalTraffic
                  (computeStationTraffic S (filterTripsByTime T f))
           else 1];
     D3.range := if (f =? -1)%Z then [0; 25] else [3; 50] |}.
Proof.
  unfold updateScatterPlot, maxTotalTraffic. cbn [radiusScale].
  rewrite max_default. by destruct (f =? -1)%Z.
Qed.

(** An update leaves the circles those of the stations. *)
Lemma updateScatterPlot_drawnFor (S : list Station) (T : list Trip)
    (plot : ScatterPlot) (f : Z) :
  NoDup (short_name <$> S) → drawnFor S plot →
  drawnFor S (updateScatterPlot S T plot f).
Proof.
  intros Hnd Hdrawn. unfold drawnFor.
  rewrite (updateScatterPlot_circles S T plot f Hnd Hdrawn).
  apply (drawCircles_drawnFor S (filterTripsByTime T f) D3.scaleSqrt).
Qed.

Lemma NoDup_stationsAB : NoDup (short_name <$> [stationA; stationB]).
Proof. apply (bool_decide_unpack _). vm_compute. exact I. Qed.

Lemma drawnFor_plotA : drawnFor [stationA; stationB] plotA.
Proof. reflexivity. Qed.

(** Two stations with one identifier: the first draw gives each its
    circle, but at the quiet hour the join rebinds only the first; the
    second keeps the record and colour of the first draw. *)
Example updateScatterPlot_shared_identifier :
  circles
    (updateScatterPlot [stationA; stationA'] tripsA
       {| radiusScale := D3.scaleSqrt;
          circles :=
            drawCircles (computeStationTraffic [stationA; stationA'] tripsA) |}
       quietHour)
  = [ (mkStationTraffic stationA 0 0 0, Some (1 # 2)%Q);
      (mkStationTraffic stationA' 1 2 3, Some 1%Q) ].
Proof. vm_compute. reflexivity. Qed.

(** X8: when the station identifiers are pairwise different and the
    circles are those of the stations, after an update there is still one
    circle per station, in the order of the stations, whatever the filter
    value; the domain of the radius scale runs from 0 to a top of at least
    1, no circle's totalTraffic lies above the top, and the top is reached
    by some circle unless every circle has totalTraffic 0, in which case
    the top is 1. *)
Theorem updateScatterPlot_domain_covers (S : list Station) (T : list Trip)
    (plot : ScatterPlot) (f : Z) :
  NoDup (short_name <$> S) → drawnFor S plot →
  (λ c, station c.1) <$> circles (updateScatterPlot S T plot f) = S
  ∧ ∃ top : nat,
      D3.domain (radiusScale (updateScatterPlot S T plot f)) = [0; top]
      ∧ 1 ≤ top
      ∧ Forall (λ c, totalTraffic c.1 ≤ top)
          (circles (updateScatterPlot S T plot f))
      ∧ (Exists (λ c, totalTraffic c.1 = top)
           (circles (updateScatterPlot S T plot f))
         ∨ top = 1
           ∧ Forall (λ c, totalTraffic c.1 = 0)
               (circles (updateScatterPlot S T plot f))).
Proof.
  intros Hnd Hdrawn.
  split; [exact (updateScatterPlot_drawnFor S T plot f Hnd Hdrawn)|].
  rewrite (updateScatterPlot_circles S T plot f Hnd Hdrawn).
  rewrite updateScatterPlot_radiusScale_eq. cbn [D3.domain].
  set (ds := computeStationTraffic S (filterTripsByTime T f)).
  unfold drawCircles. change (map ?g ?l) with (g <$> l).
  eexists. split; [reflexivity|].
  pose proof (maxTotalTraffic_attained ds) as Hmax.
  unfold truthy. destruct (Nat.eqb_spec (maxTotalTraffic ds) 0) as [E|E]; simpl.
  - split; [lia|]. split.
    + apply Forall_fmap, Forall_forall. intros d Hd. simpl.
      pose proof (maxTotalTraffic_ge ds d Hd). lia.
    + right. split; [reflexivity|].
      apply Forall_fmap, Forall_forall. intros d Hd. simpl.
      pose proof (maxTotalTraffic_ge ds d Hd). lia.
  - split; [lia|]. split.
    + apply Forall_fmap, Forall_forall. intros d Hd. simpl.
      by apply maxTotalTraffic_ge.
    + left. destruct Hmax as [H0|(d & Hd & Hd')]; [contradiction|].
      apply Exists_exists. exists (d, departureRatioStyle d).
      split; [|exact Hd'].
      by apply (list_elem_of_fmap_2 (λ d, (d, departureRatioStyle d))).
Qed.

(** Scenario A after its first draw, updated without a filter. *)
Lemma updateScatterPlot_domain_covers_witness :
  NoDup (short_name <$> [stationA; stationB])
  ∧ drawnFor [stationA; stationB] plotA
  ∧ (λ c, station c.1)
      <$> circles (updateScatterPlot [stationA; stationB] tripsA plotA (-1))
    = [stationA; stationB].
Proof.
  split; [exact NoDup_stationsAB|]. split; [exact drawnFor_plotA|].
  exact (proj1 (updateScatterPlot_domain_covers [stationA; stationB] tripsA
                  plotA (-1) NoDup_stationsAB drawnFor_plotA)).
Defined.

Lemma computeStationTraffic_nil (S : list Station) :
  computeStationTraffic S [] = (λ s, mkStationTraffic s 0 0 0) <$> S.
Proof. by rewrite computeStationTraffic_map. Qed.

Lemma maxTotalTraffic_zeros (S : list Station) :
  maxTotalTraffic ((λ s, mkStationTraffic s 0 0 0) <$> S) = 0.
Proof.
  unfold maxTotalTraffic. induction S as [|s S IH]; [reflexivity|].
  rewrite !fmap_cons. simpl. exact IH.
Qed.

(** X9: when the station identifiers are pairwise different, the circles
    are those of the stations, and no trip lies in the window (or there
    are no trips at all), every station still has its circle, with three
    zero counts and the middle colour value 0.5, and the domain of the
    radius scale is [0, 1]. *)
Theorem updateScatterPlot_empty_window (S : list Station) (T : list Trip)
    (plot : ScatterPlot) (f : Z) :
  NoDup (short_name <$> S) → drawnFor S plot →
  filterTripsByTime T f = [] →
  circles (updateScatterPlot S T plot f) =
    (λ s, (mkStationTraffic s 0 0 0, Some (1 # 2)%Q)) <$> S
  ∧ D3.domain (radiusScale (updateScatterPlot S T plot f)) = [0; 1].
Proof.
  intros Hnd Hdrawn Hnone.
  rewrite (updateScatterPlot_circles S T plot f Hnd Hdrawn).
  rewrite updateScatterPlot_radiusScale_eq. cbn [D3.domain].
  rewrite Hnone, computeStationTraffic_nil, maxTotalTraffic_zeros. split.
  - unfold drawCircles. change (map ?g ?l) with (g <$> l).
    rewrite <- list_fmap_compose. reflexivity.
  - reflexivity.
Qed.

(** At the quiet hour no trip of scenario A is in the window. *)
Lemma updateScatterPlot_empty_window_witness :
  NoDup (short_name <$> [stationA; stationB])
  ∧ drawnFor [stationA; stationB] plotA
  ∧ filterTripsByTime tripsA quietHour = []
  ∧ circles (updateScatterPlot [stationA; stationB] tripsA plotA quietHour)
    = [(mkStationTraffic stationA 0 0 0, Some (1 # 2)%Q);
       (mkStationTraffic stationB 0 0 0, Some (1 # 2)%Q)].
Proof.
  assert (Hnone : filterTripsByTime tripsA quietHour = []) by reflexivity.
  split; [exact NoDup_stationsAB|]. split; [exact drawnFor_plotA|].
  split; [exact Hnone|].
  exact (proj1 (updateScatterPlot_empty_window [stationA; stationB] tripsA
                  plotA quietHour NoDup_stationsAB drawnFor_plotA Hnone)).
Defined.

(** ** More on the marker colour *)

Lemma thresholds_stationFlow_eq :
  D3.thresholds stationFlow = [1 # 3; 2 # 3]%Q.
Proof. reflexivity. Qed.

Lemma Zpos_of_nat_succ (n : nat) :
  Z.pos (Pos.of_nat (Datatypes.S n)) = Z.of_nat (Datatypes.S n).
Proof. rewrite <- positive_nat_Z, Nat2Pos.id; [reflexivity | discriminate]. Qed.

(** X10: the colour value by thirds of the departure share: 0 when fewer
    than a third of a station's trips are departures, 0.5 from a third up
    to but not including two thirds and for a station without trips, 1
    from two thirds on.  A share of exactly one third counts as balanced,
    a share of exactly two thirds as departures-heavy. *)
Theorem departureRatioStyle_thirds (d : StationTraffic) :
  departureRatioStyle d =
    if totalTraffic d =? 0 then Some (1 # 2)%Q
    else if 3 * departures d <? totalTraffic d then Some 0%Q
    else if 3 * departures d <? 2 * totalTraffic d then Some (1 # 2)%Q
    else Some 1%Q.
Proof.
  unfold departureRatioStyle. rewrite departureRatio_cases.
  destruct (totalTraffic d) as [|n]; [reflexivity|].
  unfold D3.quantize, D3.bisect. rewrite thresholds_stationFlow_eq.
  cbn [List.filter]. unfold Qle_bool. cbn [Qnum Qden].
  rewrite Zpos_of_nat_succ.
  change (Datatypes.S n =? 0) with false. cbv iota.
  destruct (Z.leb_spec (1 * Z.of_nat (Datatypes.S n))
              (Z.of_nat (departures d) * 3));
    destruct (Z.leb_spec (2 * Z.of_nat (Datatypes.S n))
                (Z.of_nat (departures d) * 3));
    destruct (Nat.ltb_spec (3 * departures d) (Datatypes.S n));
    destruct (Nat.ltb_spec (3 * departures d) (2 * Datatypes.S n));
    try reflexivity; exfalso; lia.
Qed.

(** ** The time label *)

Lemma newDate_day (m : Z) :
  (0 ≤ m < 1440)%Z →
  newDate 0 0 0 0 m = LocalDate 1899 11 31 (m / 60) (m mod 60) 0.
Proof.
  intros Hm. unfold newDate. cbn [andb Z.leb Z.compare].
  change (0 * 60 + m)%Z with m.
  rewrite (Z.div_small m 1440), (Z.mod_small m 1440) by lia.
  change (daysFromCivil (1900 + 0 + 0 / 12) (0 mod 12) 0 + 0)%Z with (-25568)%Z.
  change (civilFromDays (-25568)) with (1899, 11, 31)%Z.
  destruct (Z.leb_spec (Z.abs (-25568 * 1440 + m)) 144000000000);
    [reflexivity | lia].
Qed.

Lemma toLocaleTimeShort_nonempty (date : Date) : toLocaleTimeShort date ≠ "".
Proof.
  destruct date as [|y mo d h m s]; [discriminate|].
  unfold toLocaleTimeShort. destruct (pretty _); discriminate.
Qed.

Lemma formatTime_NoDup : NoDup (formatTime <$> seqZ 0 1440).
Proof. apply (bool_decide_unpack _). vm_compute. exact I. Qed.

Lemma formatTime_lookup (m : Z) :
  (0 ≤ m < 1440)%Z →
  (formatTime <$> seqZ 0 1440) !! Z.to_nat m = Some (formatTime m).
Proof.
  intros Hm. rewrite list_lookup_fmap, lookup_seqZ_lt by lia.
  simpl. f_equal. f_equal. lia.
Qed.

(** X11: for a slider value within the day, 0 to 1439, the label shows
    the clock time that the filter is centred on: the Date it formats has
    that value as its minute of the day; and two different values of the
    day never share a label. *)
Theorem formatTime_day (m m' : Z) :
  (0 ≤ m < 1440)%Z → (0 ≤ m' < 1440)%Z →
  minutesSinceMidnight (newDate 0 0 0 0 m) = Num m
  ∧ (formatTime m = formatTime m' → m = m').
Proof.
  intros Hm Hm'. split.
  - rewrite newDate_day by assumption. unfold minutesSinceMidnight. simpl.
    f_equal. pose proof (Z.div_mod m 60). lia.
  - intros Heq.
    pose proof (formatTime_lookup m Hm) as H1.
    pose proof (formatTime_lookup m' Hm') as H2. rewrite <- Heq in H2.
    pose proof (proj1 (NoDup_alt _) formatTime_NoDup _ _ _ H1 H2). lia.
Qed.

(** Half past two in the afternoon and noon. *)
Lemma formatTime_day_witness :
  minutesSinceMidnight (newDate 0 0 0 0 870) = Num 870
  ∧ (formatTime 870 = formatTime 720 → 870%Z = 720%Z).
Proof. apply formatTime_day; lia. Defined.

(** ** The slider *)

Lemma updateTimeDisplay_scatterPlot (S : list Station) (T : list Trip)
    (v : Z) (session : Session) :
  scatterPlot (updateTimeDisplay S T v session) =
  updateScatterPlot S T (scatterPlot session) v.
Proof. unfold updateTimeDisplay. by destruct (v =? -1)%Z. Qed.

(** With pairwise different identifiers an update takes nothing from the
    plot it starts from but the fact that its circles are those of the
    stations. *)
Lemma updateScatterPlot_any_plot (S : list Station) (T : list Trip)
    (plot plot' : ScatterPlot) (f : Z) :
  NoDup (short_name <$> S) → drawnFor S plot → drawnFor S plot' →
  updateScatterPlot S T plot f = updateScatterPlot S T plot' f.
Proof.
  intros Hnd Hdrawn Hdrawn'.
  pose proof (updateScatterPlot_circles S T plot f Hnd Hdrawn) as Hc.
  pose proof (updateScatterPlot_circles S T plot' f Hnd Hdrawn') as Hc'.
  pose proof (updateScatterPlot_radiusScale_eq S T plot f) as Hr.
  pose proof (updateScatterPlot_radiusScale_eq S T plot' f) as Hr'.
  destruct (updateScatterPlot S T plot f) as [r c].
  destruct (updateScatterPlot S T plot' f) as [r' c'].
  cbn [radiusScale circles] in *. congruence.
Qed.

Lemma updateTimeDisplay_any_session (S : list Station) (T : list Trip)
    (v : Z) (session session' : Session) :
  NoDup (short_name <$> S) →
  drawnFor S (scatterPlot session) → drawnFor S (scatterPlot session') →
  updateTimeDisplay S T v session = updateTimeDisplay S T v session'.
Proof.
  intros Hnd Hdrawn Hdrawn'. unfold updateTimeDisplay.
  by rewrite (updateScatterPlot_any_plot S T (scatterPlot session)
                (scatterPlot session') v Hnd Hdrawn Hdrawn').
Qed.

Lemma sliderInputs_snoc (S : list Station) (T : list Trip)
    (session : Session) (values : list Z) (v : Z) :
  sliderInputs S T session (values ++ [v]) =
  updateTimeDisplay S T v (sliderInputs S T session values).
Proof. unfold sliderInputs. by rewrite foldl_app. Qed.

(** However many slider values have come in, the circles stay those of
    the stations. *)
Lemma sliderInputs_drawnFor (S : list Station) (T : list Trip)
    (session : Session) (values : list Z) :
  NoDup (short_name <$> S) → drawnFor S (scatterPlot session) →
  drawnFor S (scatterPlot (sliderInputs S T session values)).
Proof.
  intros Hnd Hdrawn. induction values as [|v values IH] using rev_ind.
  - exact Hdrawn.
  - rewrite sliderInputs_snoc, updateTimeDisplay_scatterPlot.
    by apply updateScatterPlot_drawnFor.
Qed.

Lemma NoDup_drawnFor_sessionA :
  NoDup (short_name <$> [stationA; stationB])
  ∧ drawnFor [stationA; stationB] (scatterPlot sessionA).
Proof. split; [exact NoDup_stationsAB | exact drawnFor_plotA]. Qed.

(** X13: when the station identifiers are pairwise different and the
    circles are those of the stations, the slider handler keeps no history:
    after any run of slider values the session is the one that the last
    value alone produces, from whatever such session the run started; the
    radius scale in particular keeps nothing of its former domain and
    range. *)
Theorem sliderInputs_last (S : list Station) (T : list Trip)
    (session session' : Session) (values : list Z) (v : Z) :
  NoDup (short_name <$> S) →
  drawnFor S (scatterPlot session) → drawnFor S (scatterPlot session') →
  sliderInputs S T session (values ++ [v]) = sliderInputs S T session' [v].
Proof.
  intros Hnd Hdrawn Hdrawn'. rewrite sliderInputs_snoc. simpl.
  apply updateTimeDisplay_any_session; [exact Hnd | | exact Hdrawn'].
  by apply sliderInputs_drawnFor.
Qed.

(** Scenario A: the slider moved to 09:00, then to 10:00. *)
Lemma sliderInputs_last_witness :
  sliderInputs [stationA; stationB] tripsA sessionA ([540%Z] ++ [600%Z])
  = sliderInputs [stationA; stationB] tripsA sessionA [600%Z].
Proof.
  destruct NoDup_drawnFor_sessionA as [Hnd Hdrawn].
  exact (sliderInputs_last [stationA; stationB] tripsA sessionA sessionA
           [540%Z] 600 Hnd Hdrawn Hdrawn).
Defined.

(** X14: when the station identifiers are pairwise different and the
    circles are those of the stations, after any run of slider values,
    ending in [v], what is shown agrees with [v]: the filter value is [v];
    the time text is empty exactly when [v] is -1 and is the label of [v]
    otherwise; the any-time label is shown ("inline") exactly when [v] is
    -1 and hidden ("none") exactly when it is not; and the circles carry
    the records of the trips filtered at [v]. *)
Theorem sliderInputs_consistent (S : list Station) (T : list Trip)
    (session : Session) (values : list Z) (v : Z) :
  NoDup (short_name <$> S) → drawnFor S (scatterPlot session) →
  currentTimeFilter (sliderInputs S T session (values ++ [v])) = v
  ∧ (selectedTime (sliderInputs S T session (values ++ [v])) = "" ↔ v = (-1)%Z)
  ∧ (selectedTime (sliderInputs S T session (values ++ [v])) = formatTime v
     ↔ v ≠ (-1)%Z)
  ∧ (anyTimeLabel (sliderInputs S T session (values ++ [v])) = "inline"
     ↔ v = (-1)%Z)
  ∧ (anyTimeLabel (sliderInputs S T session (values ++ [v])) = "none"
     ↔ v ≠ (-1)%Z)
  ∧ fst <$> circles (scatterPlot (sliderInputs S T session (values ++ [v])))
    = computeStationTraffic S (filterTripsByTime T v).
Proof.
  intros Hnd Hdrawn. rewrite sliderInputs_snoc.
  pose proof (sliderInputs_drawnFor S T session values Hnd Hdrawn) as Hnow.
  pose proof (updateScatterPlot_circles S T
                (scatterPlot (sliderInputs S T session values)) v Hnd Hnow)
    as Hcircles.
  pose proof (toLocaleTimeShort_nonempty (newDate 0 0 0 0 v)) as Hne.
  fold (formatTime v) in Hne.
  split_and!.
  - unfold updateTimeDisplay. by destruct (v =? -1)%Z.
  - unfold updateTimeDisplay.
    destruct (Z.eqb_spec v (-1)) as [->|Hv]; cbn [selectedTime].
    + split; reflexivity.
    + split; [intros H; by destruct Hne | contradiction].
  - unfold updateTimeDisplay.
    destruct (Z.eqb_spec v (-1)) as [->|Hv]; cbn [selectedTime].
    + split; [intros H; by symmetry in H | intros H; by destruct H].
    + split; [intros _; exact Hv | reflexivity].
  - unfold updateTimeDisplay.
    destruct (Z.eqb_spec v (-1)) as [->|Hv]; cbn [anyTimeLabel].
    + split; reflexivity.
    + split; [discriminate | contradiction].
  - unfold updateTimeDisplay.
    destruct (Z.eqb_spec v (-1)) as [->|Hv]; cbn [anyTimeLabel].
    + split; [discriminate | intros H; by destruct H].
    + split; [intros _; exact Hv | reflexivity].
  - rewrite updateTimeDisplay_scatterPlot, Hcircles.
    unfold drawCircles. change (map ?g ?l) with (g <$> l).
    rewrite <- list_fmap_compose. apply list_fmap_id.
Qed.

(** Scenario A: the slider moved to 09:00, then to 10:00. *)
Lemma sliderInputs_consistent_witness :
  currentTimeFilter
    (sliderInputs [stationA; stationB] tripsA sessionA ([540%Z] ++ [600%Z]))
  = 600%Z
  ∧ fst <$> circles
              (scatterPlot
                 (sliderInputs [stationA; stationB] tripsA sessionA
                    ([540%Z] ++ [600%Z])))
    = computeStationTraffic [stationA; stationB] (filterTripsByTime tripsA 600).
Proof.
  destruct NoDup_drawnFor_sessionA as [Hnd Hdrawn].
  destruct (sliderInputs_consistent [stationA; stationB] tripsA sessionA
              [540%Z] 600 Hnd Hdrawn) as (Hv & _ & _ & _ & _ & Hc).
  split; [exact Hv | exact Hc].
Defined.
